(** * parse_whatsapp: a shallow embedding of the chat-export parser

    The development follows [src/parse_whatsapp.py].  Python text is
    embedded as [string]: every [ascii] stands for the code point of the
    same number, so the embedded texts are exactly the Python strings whose
    code points are all below 256.  The character classes below are those
    of CPython on that range ([str.isspace], [\s], [\d], [str.lower]).
    The narrow no-break space U+202F that [_convert_time] replaces lies
    outside this range, so that replacement is the identity on every
    embedded string. *)

From Stdlib Require Import ZArith NArith Ascii String List Bool Lia.
From stdpp Require Import base option list strings gmap.

Local Open Scope string_scope.

(** ** Characters *)

Module Chr.

Local Open Scope N_scope.

Definition code (c : ascii) : N := N_of_ascii c.

Definition between (lo hi : N) (c : ascii) : bool :=
  (lo <=? code c) && (code c <=? hi).

(** [str.isspace] and the regular-expression class [\s]. *)
Definition isspace (c : ascii) : bool :=
  between 9 13 c || between 28 32 c || (code c =? 133) || (code c =? 160).

(** The regular-expression class [\d]. *)
Definition isdigit (c : ascii) : bool := between 48 57 c.

Definition is_az (c : ascii) : bool := between 97 122 c.
Definition is_AZ (c : ascii) : bool := between 65 90 c.

(** [str.lower] on one code point: A-Z and the upper-case letters of the
    range 192..222 (the multiplication sign 215 excepted) move up by 32. *)
Definition lower (c : ascii) : ascii :=
  if is_AZ c || (between 192 222 c && negb (code c =? 215))
  then ascii_of_N (code c + 32) else c.

(** [str.upper] on the code points whose upper-case form is again a single
    code point below 256; the three others (181, 223, 255) are left as they
    are: no pattern of [strptime] accepts them or their upper-case forms. *)
Definition upper (c : ascii) : ascii :=
  if is_az c || (between 224 254 c && negb (code c =? 247))
  then ascii_of_N (code c - 32) else c.

Definition eqc (a b : ascii) : bool := Ascii.eqb a b.

Definition nl : ascii := "010"%char.

End Chr.

(** ** String functions of the Python runtime used by the parser *)

Module Str.

Definition is_empty (s : string) : bool :=
  match s with EmptyString => true | String _ _ => false end.

Fixpoint map (f : ascii -> ascii) (s : string) : string :=
  match s with
  | EmptyString => EmptyString
  | String c r => String (f c) (map f r)
  end.

Fixpoint filter (p : ascii -> bool) (s : string) : string :=
  match s with
  | EmptyString => EmptyString
  | String c r => if p c then String c (filter p r) else filter p r
  end.

Fixpoint forallb (p : ascii -> bool) (s : string) : bool :=
  match s with
  | EmptyString => true
  | String c r => p c && forallb p r
  end.

Definition lower (s : string) : string := map Chr.lower s.
Definition upper (s : string) : string := map Chr.upper s.

(** [s.lstrip(chars)] for the set of characters accepted by [p]. *)
Fixpoint lstrip_by (p : ascii -> bool) (s : string) : string :=
  match s with
  | EmptyString => EmptyString
  | String c r => if p c then lstrip_by p r else s
  end.

(** [s.rstrip(chars)] for the set of characters accepted by [p]. *)
Fixpoint rstrip_by (p : ascii -> bool) (s : string) : string :=
  match s with
  | EmptyString => EmptyString
  | String c r =>
      let r' := rstrip_by p r in
      if is_empty r' && p c then EmptyString else String c r'
  end.

(** [s.strip()]: white space removed at both ends. *)
Definition strip (s : string) : string :=
  lstrip_by Chr.isspace (rstrip_by Chr.isspace s).

(** [s.lstrip('-')] *)
Definition lstrip_hyphen (s : string) : string :=
  lstrip_by (Chr.eqc "-") s.

(** [raw_line.rstrip('\n')] *)
Definition rstrip_nl (s : string) : string :=
  rstrip_by (Chr.eqc Chr.nl) s.

(** [s.startswith(p)] *)
Fixpoint startswith (p s : string) : bool :=
  match p, s with
  | EmptyString, _ => true
  | String a p', String b s' => Chr.eqc a b && startswith p' s'
  | String _ _, EmptyString => false
  end.

(** [p in s] *)
Fixpoint contains (p s : string) : bool :=
  startswith p s ||
  match s with
  | EmptyString => false
  | String _ s' => contains p s'
  end.

(** [s.endswith(p)] *)
Fixpoint endswith (p s : string) : bool :=
  String.eqb p s ||
  match s with
  | EmptyString => false
  | String _ s' => endswith p s'
  end.

(** [c in s] for one character. *)
Fixpoint has_char (c : ascii) (s : string) : bool :=
  match s with
  | EmptyString => false
  | String a r => Chr.eqc c a || has_char c r
  end.

(** [s.split(c)]: always at least one field. *)
Fixpoint split (c : ascii) (s : string) : list string :=
  match s with
  | EmptyString => [EmptyString]
  | String a r =>
      if Chr.eqc c a then EmptyString :: split c r
      else match split c r with
           | f :: fs => String a f :: fs
           | [] => [String a EmptyString]
           end
  end.

(** [s.split(c, 1)] on a string that contains [c]: the text before the
    first [c] and the text after it; [None] when [c] does not occur. *)
Fixpoint split1 (c : ascii) (s : string) : option (string * string) :=
  match s with
  | EmptyString => None
  | String a r =>
      if Chr.eqc c a then Some (EmptyString, r)
      else match split1 c r with
           | Some (k, v) => Some (String a k, v)
           | None => None
           end
  end.

(** [sep.join(l)] *)
Fixpoint join (sep : string) (l : list string) : string :=
  match l with
  | [] => EmptyString
  | [x] => x
  | x :: r => x ++ sep ++ join sep r
  end.

(** The first [n] characters. *)
Fixpoint take (n : nat) (s : string) : string :=
  match n, s with
  | S n', String c r => String c (take n' r)
  | _, _ => EmptyString
  end.

(** The text of [s] that lies before its suffix [rest]. *)
Definition before (s rest : string) : string :=
  take (String.length s - String.length rest) s.

End Str.

(** ** Backtracking regular expressions

    The fragment of Python's [re] that the parser and [strptime] use.
    Matching is by backtracking with Python's priorities: the left
    alternative first, a greedy repetition longest first, a lazy one
    shortest first.  Repetition is over one character class, which is all
    the patterns of the program need. *)

Module Re.

Inductive regex : Type :=
| Eps
| Cls (p : ascii -> bool)
| Seq (r1 r2 : regex)
| Alt (r1 r2 : regex)
| Rep (p : ascii -> bool) (lo : nat) (hi : option nat) (greedy : bool)
| Grp (i : nat) (r : regex)
| Eol.

(** The text of each capture group that took part in the match. *)
Abbreviation caps := (gmap nat string).

Definition below (hi : option nat) : bool :=
  match hi with Some 0%nat => false | _ => true end.

Definition dec (hi : option nat) : option nat :=
  match hi with Some n => Some (Nat.pred n) | None => None end.

Definition orelse {R} (a : option R) (b : unit -> option R) : option R :=
  match a with Some x => Some x | None => b tt end.

(** [Rep p lo hi greedy] against [s], then the continuation [k]. *)
Fixpoint rep {R} (p : ascii -> bool) (lo : nat) (hi : option nat)
    (greedy : bool) (s : string) (k : string -> option R) : option R :=
  let stop (_ : unit) := match lo with O => k s | S _ => None end in
  let more (_ : unit) :=
    match s with
    | String a s' =>
        if p a && below hi then rep p (Nat.pred lo) (dec hi) greedy s' k
        else None
    | EmptyString => None
    end in
  if greedy then orelse (more tt) stop else orelse (stop tt) more.

(** [$]: the end of the text, or just before a line break that ends it. *)
Definition at_eol (s : string) : bool :=
  match s with
  | EmptyString => true
  | String a EmptyString => Chr.eqc a Chr.nl
  | _ => false
  end.

Fixpoint bt {R} (r : regex) (s : string) (c : caps)
    (k : string -> caps -> option R) : option R :=
  match r with
  | Eps => k s c
  | Cls p =>
      match s with
      | String a s' => if p a then k s' c else None
      | EmptyString => None
      end
  | Seq r1 r2 => bt r1 s c (fun s' c' => bt r2 s' c' k)
  | Alt r1 r2 => orelse (bt r1 s c k) (fun _ => bt r2 s c k)
  | Rep p lo hi g => rep p lo hi g s (fun s' => k s' c)
  | Grp i r => bt r s c (fun s' c' => k s' (<[i := Str.before s s']> c'))
  | Eol => if at_eol s then k s c else None
  end.

(** [pattern.match(s)]: a match that starts at the first character; the
    result is the capture groups and the text left after the match. *)
Definition match_ (r : regex) (s : string) : option (caps * string) :=
  bt r s ∅ (fun s' c => Some (c, s')).

(** [pattern.groups()] of a match, for the groups [1..n]. *)
Definition group (c : caps) (i : nat) : string := default "" (c !! i).

(** Pattern constructors. *)
Definition chr (a : ascii) : regex := Cls (Chr.eqc a).
Definition chr_i (a : ascii) : regex :=
  Cls (fun b => Chr.eqc (Chr.lower a) (Chr.lower b)).
Definition plus (p : ascii -> bool) : regex := Rep p 1 None true.
Definition star (p : ascii -> bool) : regex := Rep p 0 None true.
Definition plus_lazy (p : ascii -> bool) : regex := Rep p 1 None false.
Definition times (p : ascii -> bool) (lo hi : nat) : regex :=
  Rep p lo (Some hi) true.

Fixpoint seq (l : list regex) : regex :=
  match l with
  | [] => Eps
  | [r] => r
  | r :: l' => Seq r (seq l')
  end.

Fixpoint alt (l : list regex) : regex :=
  match l with
  | [] => Cls (fun _ => false)
  | [r] => r
  | r :: l' => Alt r (alt l')
  end.

(** A literal word, and the same under [re.IGNORECASE]. *)
Fixpoint lit (w : string) : regex :=
  match w with
  | EmptyString => Eps
  | String a EmptyString => chr a
  | String a w' => Seq (chr a) (lit w')
  end.

Fixpoint lit_i (w : string) : regex :=
  match w with
  | EmptyString => Eps
  | String a EmptyString => chr_i a
  | String a w' => Seq (chr_i a) (lit_i w')
  end.

Definition any_of (l : string) (a : ascii) : bool := Str.has_char a l.
Definition not_nl (a : ascii) : bool := negb (Chr.eqc a Chr.nl).
Definition not_colon (a : ascii) : bool := negb (Chr.eqc a ":").

End Re.

(** ** The patterns of [parse_chat] *)

Module Pat.
Import Re.

(** [\d{1,2}/\d{1,2}/\d{2}] *)
Definition date_pat : regex :=
  seq [times Chr.isdigit 1 2; chr "/"; times Chr.isdigit 1 2; chr "/";
       times Chr.isdigit 2 2].

(** [\d{1,2}:\d{2}\s*[APap][Mm]] *)
Definition time_pat : regex :=
  seq [times Chr.isdigit 1 2; chr ":"; times Chr.isdigit 2 2;
       star Chr.isspace; Cls (any_of "APap"); Cls (any_of "Mm")].

(** The pattern [^(date),\s+(time)\s+-\s+([^:]+?):\s*( .* )$], spaces
    added around the last group for layout here only; the leading [^]
    holds trivially, [match] starting at the first character. *)
Definition regular_re : regex :=
  seq [Grp 1 date_pat; chr ","; plus Chr.isspace; Grp 2 time_pat;
       plus Chr.isspace; chr "-"; plus Chr.isspace;
       Grp 3 (plus_lazy not_colon); chr ":"; star Chr.isspace;
       Grp 4 (star not_nl); Eol].

(** The pattern [^(date),\s+(time)\s+-\s+( .* )$] *)
Definition system_re : regex :=
  seq [Grp 1 date_pat; chr ","; plus Chr.isspace; Grp 2 time_pat;
       plus Chr.isspace; chr "-"; plus Chr.isspace;
       Grp 3 (star not_nl); Eol].

(** [[A-Za-z0-9_\-]] under [re.IGNORECASE] *)
Definition name_char (a : ascii) : bool :=
  Chr.is_AZ a || Chr.is_az a || Chr.isdigit a || any_of "_-" a.

(** [([A-Za-z0-9_\-]+\.(?:jpg|jpeg|png|gif|bmp|webp|heic|opus|mp4))]
    compiled with [re.IGNORECASE] *)
Definition attach_re : regex :=
  Grp 1 (seq [plus name_char; chr ".";
              alt (List.map lit_i ["jpg"; "jpeg"; "png"; "gif"; "bmp"; "webp";
                                   "heic"; "opus"; "mp4"])]).

End Pat.

(** ** Exceptions *)

Module Py.

Inductive exc : Type :=
| ValueError
| OSError
| OtherException (name : string).

Inductive res (A : Type) : Type :=
| Ok (a : A)
| Raise (e : exc).
Arguments Ok {A} a.
Arguments Raise {A} e.

Definition bind {A B} (m : res A) (f : A -> res B) : res B :=
  match m with Ok a => f a | Raise e => Raise e end.

Definition is_ok {A} (m : res A) : bool :=
  match m with Ok _ => true | Raise _ => false end.

End Py.

#[global] Instance res_bind : MBind Py.res := fun _ _ f m => Py.bind m f.
#[global] Instance res_ret : MRet Py.res := fun _ a => Py.Ok a.

(** ** [datetime.strptime] and [strftime] for the three formats in use

    Modelled on CPython's [_strptime.py]: the format becomes a pattern
    (compiled with [re.IGNORECASE]) that must match the whole text; a
    two-digit year up to 68 lies in 2000..2068, from 69 on in 1969..1999;
    the day must exist in its month. *)

Module Datetime.
Import Re Py.
Local Open Scope nat_scope.

Definition digit (lo hi : N) : regex := Cls (Chr.between lo hi).
Arguments digit (lo hi)%_N.

(** [%m] and [%I]: [1[0-2]|0[1-9]|[1-9]] *)
Definition dir_m : regex :=
  alt [Seq (chr "1") (digit 48 50); Seq (chr "0") (digit 49 57); digit 49 57].

(** [%d]: [3[0-1]|[1-2]\d|0[1-9]|[1-9]| [1-9]] *)
Definition dir_d : regex :=
  alt [Seq (chr "3") (digit 48 49); Seq (digit 49 50) (Cls Chr.isdigit);
       Seq (chr "0") (digit 49 57); digit 49 57; Seq (chr " ") (digit 49 57)].

(** [%y]: [\d\d] *)
Definition dir_y : regex := Seq (Cls Chr.isdigit) (Cls Chr.isdigit).

(** [%M]: [[0-5]\d|\d] *)
Definition dir_M : regex :=
  alt [Seq (digit 48 53) (Cls Chr.isdigit); Cls Chr.isdigit].

(** [%p] in the C locale: [am|pm] *)
Definition dir_p : regex := alt [lit_i "am"; lit_i "pm"].

(** Group numbers stand for the group names m, d, y, I, M, p. *)
Definition fmt_mdy : regex :=
  seq [Grp 1 dir_m; chr "/"; Grp 2 dir_d; chr "/"; Grp 3 dir_y].
Definition fmt_dmy : regex :=
  seq [Grp 2 dir_d; chr "/"; Grp 1 dir_m; chr "/"; Grp 3 dir_y].
Definition fmt_IMp : regex :=
  seq [Grp 4 dir_m; chr ":"; Grp 5 dir_M; plus Chr.isspace; Grp 6 dir_p].

(** [int(s)] for a text of decimal digits. *)
Definition digit_val (c : ascii) : nat := nat_of_ascii c - 48.
Definition int (s : string) : nat :=
  let fix go (acc : nat) (s : string) : nat :=
    match s with
    | EmptyString => acc
    | String c r => go (10 * acc + digit_val c) r
    end in
  go 0 (Str.filter Chr.isdigit s).

Definition is_leap (y : nat) : bool :=
  (y mod 4 =? 0) && (negb (y mod 100 =? 0) || (y mod 400 =? 0)).

Definition days_in_month (y m : nat) : nat :=
  match m with
  | 2 => if is_leap y then 29 else 28
  | 4 | 6 | 9 | 11 => 30
  | _ => 31
  end.

Record datetime : Type := mk_datetime {
  year : nat; month : nat; day : nat; hour : nat; minute : nat }.

(** A pattern mismatch and text left over both raise [ValueError]. *)
Definition parse_whole (fmt : regex) (s : string) : res caps :=
  match match_ fmt s with
  | None => Raise ValueError
  | Some (g, rest) => if Str.is_empty rest then Ok g else Raise ValueError
  end.

Definition full_year (yy : nat) : nat :=
  if yy <=? 68 then 2000 + yy else 1900 + yy.

Definition date_of_groups (g : caps) : res datetime :=
  let y := full_year (int (group g 3)) in
  let m := int (group g 1) in
  let d := int (group g 2) in
  if d <=? days_in_month y m
  then Ok (mk_datetime y m d 0 0)
  else Raise ValueError.

(** [datetime.strptime(s, "%m/%d/%y")] *)
Definition strptime_mdy (s : string) : res datetime :=
  g ← parse_whole fmt_mdy s; date_of_groups g.

(** [datetime.strptime(s, "%d/%m/%y")] *)
Definition strptime_dmy (s : string) : res datetime :=
  g ← parse_whole fmt_dmy s; date_of_groups g.

(** [datetime.strptime(s, "%I:%M %p")] *)
Definition strptime_IMp (s : string) : res datetime :=
  g ← parse_whole fmt_IMp s;
  let h := int (group g 4) in
  let ampm := Str.lower (group g 6) in
  let h24 :=
    if String.eqb ampm "am" then (if h =? 12 then 0 else h)
    else (if h =? 12 then h else h + 12) in
  Ok (mk_datetime 1900 1 1 h24 (int (group g 5))).

Definition dec_char (n : nat) : ascii := ascii_of_nat (48 + n mod 10).

Definition pad2 (n : nat) : string :=
  String (dec_char (n / 10)) (String (dec_char n) EmptyString).

Definition pad4 (n : nat) : string :=
  String (dec_char (n / 1000)) (String (dec_char (n / 100)) (pad2 n)).

(** [dt.strftime("%Y-%m-%d")] *)
Definition strftime_Ymd (dt : datetime) : string :=
  pad4 (year dt) ++ "-" ++ pad2 (month dt) ++ "-" ++ pad2 (day dt).

(** [dt.strftime("%H:%M")] *)
Definition strftime_HM (dt : datetime) : string :=
  pad2 (hour dt) ++ ":" ++ pad2 (minute dt).

End Datetime.

(** ** The timestamp helpers of the parser *)

Import Py.

(** [_convert_date]: month first; on [ValueError] day first, whose own
    [ValueError] is the caller's. *)
Definition _convert_date (date_str : string) : res string :=
  match Datetime.strptime_mdy date_str with
  | Ok dt => Ok (Datetime.strftime_Ymd dt)
  | Raise ValueError =>
      dt ← Datetime.strptime_dmy date_str; Ok (Datetime.strftime_Ymd dt)
  | Raise e => Raise e
  end.

(** [_convert_time]; the replacement of U+202F by a space acts on no
    embedded text and is left out. *)
Definition _convert_time (time_str : string) : res string :=
  let cleaned := Str.upper (Str.strip time_str) in
  dt ← Datetime.strptime_IMp cleaned; Ok (Datetime.strftime_HM dt).

(** ** Data model

    The message dictionaries of [parse_chat] have the five fixed keys of
    this record.  They are objects of the Python heap: the list [messages]
    and the variable [current_msg] hold references to them.  The heap is a
    list of records, a reference is an index into it, and a fresh
    dictionary is placed at the end. *)

Record Attachment : Type := mk_attachment {
  filename : string;
  ocr_text : string }.

Record Message : Type := mk_message {
  date : string;
  time : string;
  sender : string;
  text : string;
  attachments : list Attachment }.

Definition set_text (f : string -> string) (m : Message) : Message :=
  mk_message (date m) (time m) (sender m) (f (text m)) (attachments m).

Definition set_attachments (l : list Attachment) (m : Message) : Message :=
  mk_message (date m) (time m) (sender m) (text m) l.

Abbreviation ref := nat (only parsing).
Abbreviation heap := (list Message) (only parsing).

(** ** The message segmenter: the first loop of [parse_chat] *)

Module Seg.

Record state : Type := mk_state {
  store : heap;
  messages : list ref;
  current_msg : option ref }.

Definition init : state := mk_state [] [] None.

(** [if current_msg is not None: messages.append(current_msg)] *)
Definition seal (st : state) : list ref :=
  match current_msg st with
  | Some a => messages st ++ [a]
  | None => messages st
  end.

(** Seal the open message, then bind [current_msg] to a new dictionary. *)
Definition open_msg (st : state) (m : Message) : state :=
  mk_state (store st ++ [m]) (seal st) (Some (length (store st))).

(** [current_msg['text'] += '\n' + line] *)
Definition continue_msg (st : state) (line : string) : state :=
  match current_msg st with
  | Some a =>
      mk_state (alter (set_text (fun t => t ++ String Chr.nl line)) a (store st))
               (messages st) (current_msg st)
  | None => st
  end.

(** The header of an authored line: groups 1 to 4 of [regular_re]. *)
Definition regular_header (g : Re.caps) : res Message :=
  date_iso ← _convert_date (Re.group g 1);
  time_iso ← _convert_time (Re.group g 2);
  Ok (mk_message date_iso time_iso (Str.strip (Re.group g 3))
                 (Str.strip (Re.group g 4)) []).

(** The header of a system line: groups 1 to 3 of [system_re]. *)
Definition system_header (g : Re.caps) : res Message :=
  date_iso ← _convert_date (Re.group g 1);
  time_iso ← _convert_time (Re.group g 2);
  Ok (mk_message date_iso time_iso "System" (Str.strip (Re.group g 3)) []).

(** The body of [for raw_line in fh]. *)
Definition step (st : state) (raw_line : string) : res state :=
  let line := Str.rstrip_nl raw_line in
  match Re.match_ Pat.regular_re line with
  | Some (g, _) => m ← regular_header g; Ok (open_msg st m)
  | None =>
      match Re.match_ Pat.system_re line with
      | Some (g, _) => m ← system_header g; Ok (open_msg st m)
      | None => Ok (continue_msg st line)
      end
  end.

Fixpoint steps (st : state) (lines : list string) : res state :=
  match lines with
  | [] => Ok st
  | l :: ls => st' ← step st l; steps st' ls
  end.

(** After the loop the last message is appended. *)
Definition finish (st : state) : state :=
  mk_state (store st) (seal st) (current_msg st).

Definition run (lines : list string) : res state :=
  st ← steps init lines; Ok (finish st).

End Seg.

(** Reading the dictionaries a list of references points to. *)
Definition deref (h : heap) (l : list ref) : list Message :=
  omap (fun a => h !! a) l.

(** The messages of the segmenter, as values. *)
Definition segment (lines : list string) : res (list Message) :=
  st ← Seg.run lines; Ok (deref (Seg.store st) (Seg.messages st)).

(** ** The outside world

    The optional modules [PIL.Image] and [pytesseract] ([None] when the
    import failed), the file system probe [os.path.isfile] and the
    directory the archive was extracted to.  A call into a module returns
    or raises; [exc] stands for the subclasses of [Exception]. *)

Record PIL (img : Type) : Type := mk_PIL {
  Image_open : string -> res img;
  mode : img -> string;
  convert : img -> string -> res img }.
Arguments Image_open {img}.
Arguments mode {img}.
Arguments convert {img}.

Record Tesseract (img : Type) : Type := mk_Tesseract {
  image_to_string : img -> res string }.
Arguments image_to_string {img}.

Record Env : Type := mk_Env {
  img : Type;
  Image : option (PIL img);
  pytesseract : option (Tesseract img);
  isfile : string -> bool;
  attachments_dir : string }.

(** [try: body except Exception: handler] *)
Definition try_except {A} (body : res A) (handler : exc -> res A) : res A :=
  match body with
  | Ok a => Ok a
  | Raise e => handler e
  end.

(** [_perform_ocr] *)
Definition _perform_ocr (E : Env) (image_path : string) : res string :=
  match pytesseract E, Image E with
  | Some tess, Some pil =>
      try_except
        (im ← Image_open pil image_path;
         im ← (if negb (String.eqb (mode pil im) "RGB")
                then convert pil im "RGB" else Ok im);
         text ← image_to_string tess im;
         Ok (Str.strip text))
        (fun _ => Ok "")
  | _, _ => Ok ""
  end.

(** ** The attachment pass: the second loop of [parse_chat] *)

Module Att.

(** [attach_re.finditer(text)]: group 1 of the successive matches, each
    search resuming where the previous match ended.  [skip] counts the
    characters of the current match still to pass. *)
Fixpoint finditer (skip : nat) (s : string) : list string :=
  match s with
  | EmptyString => []
  | String _ s' =>
      match skip with
      | S n => finditer n s'
      | O =>
          match Re.match_ Pat.attach_re s with
          | Some (g, rest) =>
              Re.group g 1
                :: finditer (String.length s - String.length rest - 1) s'
          | None => finditer 0 s'
          end
      end
  end.

(** [os.path.join(a, b)] *)
Definition path_join (a b : string) : string :=
  if Str.startswith "/" b then b
  else if Str.is_empty a || Str.endswith "/" a then a ++ b
  else a ++ "/" ++ b.

Definition image_exts : list string :=
  [".jpg"; ".jpeg"; ".png"; ".gif"; ".bmp"; ".webp"; ".heic"].

(** [fname.lower().endswith(('.jpg', ..., '.heic'))] *)
Definition is_image_name (fname : string) : bool :=
  existsb (fun e => Str.endswith e (Str.lower fname)) image_exts.

(** The guard of the call to [_perform_ocr]. *)
Definition ocr_wanted (E : Env) (fname : string) : bool :=
  isfile E (path_join (attachments_dir E) fname) && is_image_name fname.

(** The state of the pass: the heap and the log of the calls to
    [_perform_ocr], the path of each call in order. *)
Record state : Type := mk_state {
  store : heap;
  ocr_calls : list string }.

(** One iteration of [for m in attach_re.finditer(text)]: the entry that
    is appended to [attachments], and the calls made. *)
Definition resolve (E : Env) (fname : string) : res (Attachment * list string) :=
  let fpath := path_join (attachments_dir E) fname in
  if ocr_wanted E fname
  then ocr ← _perform_ocr E fpath; Ok (mk_attachment fname ocr, [fpath])
  else Ok (mk_attachment fname "", []).

Fixpoint resolve_all (E : Env) (fnames : list string)
    : res (list Attachment * list string) :=
  match fnames with
  | [] => Ok ([], [])
  | f :: fs =>
      '(a, c) ← resolve E f;
      '(l, cs) ← resolve_all E fs;
      Ok (a :: l, (c ++ cs)%list)
  end.

(** The body of [for msg in messages]. *)
Definition step (E : Env) (st : state) (a : ref) : res state :=
  match store st !! a with
  | None => Ok st
  | Some msg =>
      '(atts, calls) ← resolve_all E (finditer 0 (text msg));
      Ok (mk_state
            (match atts with
             | [] => store st
             | _ :: _ => alter (set_attachments atts) a (store st)
             end)
            ((ocr_calls st ++ calls)%list))
  end.

Fixpoint steps (E : Env) (st : state) (l : list ref) : res state :=
  match l with
  | [] => Ok st
  | a :: l' => st' ← step E st a; steps E st' l'
  end.

End Att.

(** ** The detail extractor: [extract_details] *)

Module Det.

(** [re.sub(r'[^a-z]', '', key_raw.lower())] *)
Definition key_norm (key_raw : string) : string :=
  Str.filter Chr.is_az (Str.lower key_raw).

(** The chain of [if]/[elif] on the normalized key. *)
Definition classify (k : string) : option string :=
  let has w := Str.contains w k in
  if has "loan" && has "num" then Some "loan_num"
  else if has "loan" && has "no" then Some "loan_num"
  else if has "name" then Some "name"
  else if has "phone" || has "mobile" then Some "phone_number"
  else if has "loan" && has "amount" then Some "loan_amount"
  else if has "disbursal" && has "date" then Some "disbursal_date"
  else if has "repayment" && has "amt" then Some "repayment_amt"
  else if has "repayment" && has "amount" then Some "repayment_amt"
  else if has "repayment" && has "date" then Some "repayment_date"
  else if has "receive" && has "amt" then Some "receive_amt"
  else if has "receive" && has "amount" then Some "receive_amt"
  else if has "receive" && has "date" then Some "receive_date"
  else if has "status" then Some "status"
  else if has "reloan" then Some "reloan"
  else None.

(** [value_part.strip().lstrip('-').strip()] *)
Definition value_raw (value_part : string) : string :=
  Str.strip (Str.lstrip_hyphen (Str.strip value_part)).

(** What one segment contributes: its canonical key and its value. *)
Definition entry (segment : string) : option (string * string) :=
  match Str.split1 ":" segment with
  | None => None
  | Some (key_part, value_part) =>
      let key_raw := Str.strip key_part in
      if Str.is_empty key_raw then None
      else match classify (key_norm key_raw) with
           | Some canonical => Some (canonical, value_raw value_part)
           | None => None
           end
  end.

(** The body of [for segment in text.split('\n')]. *)
Definition step (details : gmap string string) (segment : string)
    : gmap string string :=
  match entry segment with
  | Some (canonical, v) => <[canonical := v]> details
  | None => details
  end.

Definition extract_details (text : string) : gmap string string :=
  foldl step ∅ (Str.split Chr.nl text).

End Det.

(** ** The table: the third loop of [parse_chat] and the data frame *)

Module Tab.

Abbreviation row := (gmap string string).

(** [', '.join(att['filename'] for att in ...)] *)
Definition att_names (m : Message) : string :=
  Str.join ", " (List.map filename (attachments m)).

(** [' || '.join(att['ocr_text'] for att in ... if att['ocr_text'])] *)
Definition att_texts (m : Message) : string :=
  Str.join " || "
    (List.map ocr_text
       (List.filter (fun a => negb (Str.is_empty (ocr_text a))) (attachments m))).

Definition base_row (m : Message) : row :=
  <["ocr_text" := att_texts m]>
  (<["attachments" := att_names m]>
  (<["text" := text m]>
  (<["sender" := sender m]>
  (<["time" := time m]>
  (<["date" := date m]> ∅))))).

(** [row[f'collection_details_{key}'] = val] *)
Definition add_detail (r : row) (kv : string * string) : row :=
  <["collection_details_" ++ kv.1 := kv.2]> r.

Definition build_row (m : Message) : row :=
  foldl add_detail (base_row m) (map_to_list (Det.extract_details (text m))).

(** [pd.DataFrame(rows)]: one index entry per row, the columns are the
    keys that occur; [df.empty] holds when either axis has length zero. *)
Definition columns (rows : list row) : gset string := ⋃ (dom <$> rows).

Definition df_empty (rows : list row) : bool :=
  bool_decide (length rows = 0) || bool_decide (size (columns rows) = 0).

Definition placeholder : row :=
  <["ocr_text" := ""]> (<["attachments" := ""]> (<["text" := ""]>
  (<["sender" := ""]> (<["time" := ""]> (<["date" := ""]> ∅))))).

(** The rows handed to [to_excel]. *)
Definition excel (rows : list row) : list row :=
  if df_empty rows then [placeholder] else rows.

End Tab.

(** ** The pipeline of [parse_chat], from the lines of the chat file on *)

Record Output : Type := mk_output {
  json_messages : list Message;
  excel_rows : list Tab.row;
  ocr_log : list string }.

Definition parse_chat (E : Env) (lines : list string) : res Output :=
  seg ← Seg.run lines;
  att ← Att.steps E (Att.mk_state (Seg.store seg) []) (Seg.messages seg);
  let msgs := deref (Att.store att) (Seg.messages seg) in
  Ok (mk_output msgs (Tab.excel (List.map Tab.build_row msgs))
                (Att.ocr_calls att)).

(** An archive without media and without the optional modules. *)
Definition bare_env : Env :=
  mk_Env unit None None (fun _ => false) "/tmp/x".

(** ** Specification-side definitions *)

(** A line break as a text. *)
Definition NL : string := String Chr.nl EmptyString.

(** The value of the last entry of [es] filed under the key [c]. *)
Fixpoint last_value (c : string) (es : list (string * string)) : option string :=
  match es with
  | [] => None
  | (k, v) :: r =>
      match last_value c r with
      | Some x => Some x
      | None => if String.eqb k c then Some v else None
      end
  end.

(** A text without white space at either end. *)
Definition trimmed (s : string) : Prop := Str.strip s = s.


(** [n] hyphens. *)
Fixpoint hyphens (n : nat) : string :=
  match n with
  | O => EmptyString
  | S n' => String "-" (hyphens n')
  end.


(** Every reference held by the segmenter points into the heap, and the
    open message is not among the sealed ones. *)
Definition wf (st : Seg.state) : Prop :=
  (∀ a, a ∈ Seg.messages st → a < length (Seg.store st)) ∧
  (∀ c, Seg.current_msg st = Some c →
        c < length (Seg.store st) ∧ c ∉ Seg.messages st).

(** Two messages that may differ in their attachments only. *)
Definition same_fields (m m' : Message) : Prop :=
  date m' = date m ∧ time m' = time m ∧ sender m' = sender m ∧
  text m' = text m.










(** ** Worlds for the examples *)

(** An image library that knows one file, in palette mode, and an engine
    that reads padded text from it. *)
Definition one_image_pil : PIL string :=
  mk_PIL string
    (fun p => if (p =? "/tmp/x/a.png")%string then Ok "P" else Raise OSError)
    (fun im => im)
    (fun im m => Ok m).

Definition padded_tesseract : Tesseract string :=
  mk_Tesseract string (fun im => Ok "  Total 42  ").

Definition failing_tesseract : Tesseract string :=
  mk_Tesseract string (fun im => Raise (OtherException "TesseractError")).

Definition ocr_env (t : option (Tesseract string)) : Env :=
  mk_Env string (Some one_image_pil) t
         (fun p => (p =? "/tmp/x/a.png")%string) "/tmp/x".

(** * Properties *)

(** Orders and sums below are those of [nat]; texts keep their literals. *)
Local Open Scope nat_scope.

(** ** C1: the segmenter *)

Section Segmenter.
Import Seg.

(** C1. The authored-line pattern is tried first and decides the step
    whenever it matches; the system-line pattern is consulted only after
    it failed; a line matching neither extends the text of the open message
    by a line break and the line; a header seals the open message before
    the new one is opened.  On the three lines of the example the segmenter
    yields exactly two messages, the first with text "Hello", a line
    break, "world". *)
Theorem segmenter_grammar_order :
  (∀ st raw g rest,
      Re.match_ Pat.regular_re (Str.rstrip_nl raw) = Some (g, rest) →
      step st raw = (m ← regular_header g; Ok (open_msg st m))) ∧
  (∀ st raw g rest,
      Re.match_ Pat.regular_re (Str.rstrip_nl raw) = None →
      Re.match_ Pat.system_re (Str.rstrip_nl raw) = Some (g, rest) →
      step st raw = (m ← system_header g; Ok (open_msg st m))) ∧
  (∀ st raw a m,
      Re.match_ Pat.regular_re (Str.rstrip_nl raw) = None →
      Re.match_ Pat.system_re (Str.rstrip_nl raw) = None →
      current_msg st = Some a → store st !! a = Some m →
      ∃ st', step st raw = Ok st' ∧
             messages st' = messages st ∧ current_msg st' = Some a ∧
             store st' !! a
               = Some (set_text (fun t => t ++ NL ++ Str.rstrip_nl raw) m)) ∧
  (∀ st a m,
      current_msg st = Some a →
      messages (open_msg st m) = (messages st ++ [a])%list ∧
      current_msg (open_msg st m) = Some (length (store st)) ∧
      store (open_msg st m) !! length (store st) = Some m) ∧
  segment ["9/8/25, 5:58 PM - John Doe: Hello"; "world";
           "9/8/25, 5:59 PM - Jane: Bye"]
    = Ok [mk_message "2025-09-08" "17:58" "John Doe"
                     ("Hello" ++ NL ++ "world") [];
          mk_message "2025-09-08" "17:59" "Jane" "Bye" []].
Proof.
  split; [|split; [|split; [|split]]].
  - intros st raw g rest H. unfold step. by rewrite H.
  - intros st raw g rest H1 H2. unfold step. by rewrite H1, H2.
  - intros st raw a m H1 H2 Hc Ha. unfold step. rewrite H1, H2.
    unfold continue_msg. rewrite Hc. eexists. split; [reflexivity|].
    simpl. split; [done|]. split; [done|].
    rewrite list_lookup_alter_eq, Ha. reflexivity.
  - intros st a m H. unfold open_msg, seal. simpl. rewrite H.
    split; [done|]. split; [done|].
    rewrite lookup_app_r by lia. by rewrite Nat.sub_diag.
  - vm_compute. reflexivity.
Qed.

(** The three general rules of C1 at concrete lines. *)
Lemma segmenter_grammar_order_witness :
  step init "9/8/25, 5:58 PM - John Doe: Hello"
    = Ok (open_msg init
            (mk_message "2025-09-08" "17:58" "John Doe" "Hello" [])) ∧
  step init "9/8/25, 5:58 PM - Messages are encrypted"
    = Ok (open_msg init
            (mk_message "2025-09-08" "17:58" "System"
                        "Messages are encrypted" [])) ∧
  (∃ st', step (mk_state [mk_message "d" "t" "s" "Hello" []] [] (Some 0%nat))
               "world" = Ok st' ∧
          store st' !! 0%nat
            = Some (mk_message "d" "t" "s" ("Hello" ++ NL ++ "world") [])).
Proof.
  destruct segmenter_grammar_order as (H1 & H2 & H3 & _).
  split; [|split].
  - eapply eq_trans; [eapply H1; vm_compute; reflexivity|].
    vm_compute. reflexivity.
  - eapply eq_trans; [eapply H2; vm_compute; reflexivity|].
    vm_compute. reflexivity.
  - edestruct (H3 (mk_state [mk_message "d" "t" "s" "Hello" []] []
                      (Some 0%nat)) "world" 0%nat) as (st' & Hs & _ & _ & Hl);
      [vm_compute; reflexivity ..|].
    exists st'. split; [exact Hs|]. rewrite Hl. vm_compute. reflexivity.
Defined.

End Segmenter.

(** ** C2: the detail extractor *)

Section Details.
Import Det.

Lemma last_value_app c es k v :
  last_value c (es ++ [(k, v)])
  = if String.eqb k c then Some v else last_value c es.
Proof.
  induction es as [|[k' v'] es IH]; simpl.
  - reflexivity.
  - rewrite IH. destruct (String.eqb k c); [reflexivity|].
    destruct (last_value c es); reflexivity.
Qed.

Lemma foldl_step_lookup (segs : list string) (c : string) :
  foldl step ∅ segs !! c = last_value c (omap entry segs).
Proof.
  induction segs as [|x segs IH] using rev_ind.
  - simpl. apply lookup_empty.
  - rewrite foldl_app, omap_app. simpl. unfold step at 1.
    destruct (entry x) as [[k v]|]; simpl.
    + rewrite last_value_app, lookup_insert.
      destruct (String.eqb_spec k c) as [->|Hne].
      * by rewrite decide_True.
      * by rewrite decide_False.
    + by rewrite app_nil_r.
Qed.

Lemma split1_first_colon k v :
  Str.has_char ":" k = false →
  Str.split1 ":" (k ++ String ":" v) = Some (k, v).
Proof.
  induction k as [|a k IH]; simpl; intros H.
  - reflexivity.
  - apply orb_false_iff in H as [Ha Hk]. rewrite Ha, (IH Hk). reflexivity.
Qed.

Lemma split1_no_colon s :
  Str.has_char ":" s = false → Str.split1 ":" s = None.
Proof.
  induction s as [|a s IH]; simpl; intros H; [reflexivity|].
  apply orb_false_iff in H as [Ha Hs]. by rewrite Ha, (IH Hs).
Qed.

Lemma space_not_letter (c : ascii) :
  Chr.isspace c = true → Chr.is_az (Chr.lower c) = false.
Proof.
  destruct c as [[] [] [] [] [] [] [] []]; vm_compute; intros H;
    (reflexivity || discriminate H).
Qed.

Lemma key_norm_cons_space (c : ascii) (s : string) :
  Chr.isspace c = true → key_norm (String c s) = key_norm s.
Proof.
  intros H. unfold key_norm, Str.lower. simpl.
  by rewrite (space_not_letter _ H).
Qed.

Lemma key_norm_lstrip (s : string) :
  key_norm (Str.lstrip_by Chr.isspace s) = key_norm s.
Proof.
  induction s as [|c s IH]; [reflexivity|]. simpl.
  destruct (Chr.isspace c) eqn:Hc; [|reflexivity].
  by rewrite IH, key_norm_cons_space.
Qed.

Lemma key_norm_rstrip (s : string) :
  key_norm (Str.rstrip_by Chr.isspace s) = key_norm s.
Proof.
  induction s as [|c s IH]; [reflexivity|]. simpl.
  destruct (Str.is_empty (Str.rstrip_by Chr.isspace s)) eqn:He; simpl.
  - destruct (Chr.isspace c) eqn:Hc.
    + rewrite key_norm_cons_space by done. rewrite <- IH.
      by destruct (Str.rstrip_by Chr.isspace s).
    + unfold key_norm, Str.lower in *. simpl. by rewrite IH.
  - unfold key_norm, Str.lower in *. simpl. by rewrite IH.
Qed.

Lemma key_norm_strip (s : string) : key_norm (Str.strip s) = key_norm s.
Proof. unfold Str.strip. by rewrite key_norm_lstrip, key_norm_rstrip. Qed.

(** C2. For every text and canonical key, the extracted value is the one
    of the last line filed under that key; a line is filed by cutting it at
    its first colon, keeping the lower-case letters of the lower-cased
    key and running the ordered rules on them; a line without a
    colon, or whose key matches no rule, contributes nothing.  The two
    examples of the specification evaluate as stated. *)
Theorem extract_details_last_wins :
  (∀ (text c : string),
      extract_details text !! c
      = last_value c (omap entry (Str.split Chr.nl text))) ∧
  (∀ k v : string,
      Str.has_char ":" k = false →
      entry (k ++ String ":" v)
      = match classify (Str.filter Chr.is_az (Str.lower k)) with
        | Some c => Some (c, value_raw v)
        | None => None
        end) ∧
  (∀ s : string, Str.has_char ":" s = false → entry s = None) ∧
  extract_details ("Loan No: 123" ++ NL ++ "Name: Asha" ++ NL
                   ++ "http://x.com/a:b")
    = <["loan_num" := "123"]> (<["name" := "Asha"]> ∅) ∧
  extract_details ("Status: open" ++ NL ++ "Status: closed")
    = <["status" := "closed"]> ∅.
Proof.
  split; [|split; [|split; [|split]]].
  - intros text c. apply foldl_step_lookup.
  - intros k v H. unfold entry. rewrite (split1_first_colon _ _ H).
    rewrite key_norm_strip. fold (key_norm k).
    destruct (Str.strip k) eqn:Hk; [|reflexivity]. simpl.
    rewrite <- (key_norm_strip k), Hk. reflexivity.
  - intros s H. unfold entry. by rewrite (split1_no_colon _ H).
  - vm_compute. reflexivity.
  - vm_compute. reflexivity.
Qed.

(** The per-line rules of C2 at the lines of the first example. *)
Lemma extract_details_last_wins_witness :
  entry "Loan No: 123" = Some ("loan_num", "123") ∧
  entry "http://x.com/a:b" = None ∧
  entry "no colon here" = None.
Proof.
  destruct extract_details_last_wins as (_ & H2 & H3 & _).
  split; [|split].
  - eapply eq_trans; [apply (H2 "Loan No" " 123"); reflexivity|].
    vm_compute. reflexivity.
  - eapply eq_trans; [apply (H2 "http" "//x.com/a:b"); reflexivity|].
    vm_compute. reflexivity.
  - apply H3. reflexivity.
Defined.

End Details.

(** ** C3: the date helper *)

(** C3, at the input where the program and the claim part: the year 99 is
    placed in 1999, not 2099.  The month is read first and the day-first
    order serves when that fails; a token that neither order reads raises;
    over all two-digit years the program yields 2000 + YY up to 68 and
    1900 + YY from 69 on. *)
Theorem convert_date_year_pivot :
  _convert_date "9/8/99" = Ok "1999-09-08" ∧
  _convert_date "9/8/25" = Ok "2025-09-08" ∧
  _convert_date "13/8/25" = Ok "2025-08-13" ∧
  _convert_date "13/13/25" = Raise ValueError ∧
  Forall (fun yy => _convert_date ("9/8/" ++ Datetime.pad2 yy)
                    = Ok (Datetime.pad4 (if (yy <=? 68)%nat then (2000 + yy)%nat
                                         else (1900 + yy)%nat)
                          ++ "-09-08"))
         (seq 0 100).
Proof.
  do 4 (split; [vm_compute; reflexivity|]).
  apply Forall_forall. intros yy Hin.
  apply elem_of_seq in Hin. destruct Hin as [_ Hlt]. simpl in Hlt.
  do 100 (destruct yy as [|yy]; [vm_compute; reflexivity|]). lia.
Qed.

(** ** C5: the text recovery helper *)

Lemma perform_ocr_total (E : Env) (path : string) :
  ∃ s, _perform_ocr E path = Ok s.
Proof.
  unfold _perform_ocr.
  destruct (pytesseract E) as [tess|], (Image E) as [pil|]; eauto.
  destruct (Image_open pil path) as [im|e]; simpl; eauto.
  destruct (if negb (mode pil im =? "RGB")%string
            then convert pil im "RGB" else Ok im) as [im'|e]; simpl; eauto.
  destruct (image_to_string tess im') as [t|e]; simpl; eauto.
Qed.

(** C5. [_perform_ocr] returns a text for every path and never raises;
    without either optional module the text is empty; an exception raised
    while opening the image, converting it or recognising it gives the
    empty text; when all three calls return, the result is the recognised
    text with the white space at both ends removed. *)
Theorem perform_ocr_never_raises :
  (∀ E path, ∃ s, _perform_ocr E path = Ok s) ∧
  (∀ E path, pytesseract E = None ∨ Image E = None →
      _perform_ocr E path = Ok "") ∧
  (∀ E path tess pil e,
      pytesseract E = Some tess → Image E = Some pil →
      Image_open pil path = Raise e →
      _perform_ocr E path = Ok "") ∧
  (∀ E path tess pil im e,
      pytesseract E = Some tess → Image E = Some pil →
      Image_open pil path = Ok im →
      mode pil im ≠ "RGB" → convert pil im "RGB" = Raise e →
      _perform_ocr E path = Ok "") ∧
  (∀ E path tess pil im im' e,
      pytesseract E = Some tess → Image E = Some pil →
      Image_open pil path = Ok im →
      (if negb (mode pil im =? "RGB")%string
       then convert pil im "RGB" else Ok im) = Ok im' →
      image_to_string tess im' = Raise e →
      _perform_ocr E path = Ok "") ∧
  (∀ E path tess pil im im' t,
      pytesseract E = Some tess → Image E = Some pil →
      Image_open pil path = Ok im →
      (if negb (mode pil im =? "RGB")%string
       then convert pil im "RGB" else Ok im) = Ok im' →
      image_to_string tess im' = Ok t →
      _perform_ocr E path = Ok (Str.strip t)).
Proof.
  split; [exact perform_ocr_total|].
  split; [|split; [|split; [|split]]].
  - intros E path [H|H]; unfold _perform_ocr; rewrite H; [done|].
    by destruct (pytesseract E).
  - intros E path tess pil e Ht Hp Ho. unfold _perform_ocr.
    by rewrite Ht, Hp, Ho.
  - intros E path tess pil im e Ht Hp Ho Hm Hc. unfold _perform_ocr.
    rewrite Ht, Hp, Ho. simpl.
    apply String.eqb_neq in Hm. by rewrite Hm, Hc.
  - intros E path tess pil im im' e Ht Hp Ho Hc Hs. unfold _perform_ocr.
    rewrite Ht, Hp, Ho. simpl. by rewrite Hc; simpl; rewrite Hs.
  - intros E path tess pil im im' t Ht Hp Ho Hc Hs. unfold _perform_ocr.
    rewrite Ht, Hp, Ho. simpl. by rewrite Hc; simpl; rewrite Hs.
Qed.

(** C5 at concrete worlds: no engine, an unreadable file, a failing
    engine, and a successful recognition. *)
Lemma perform_ocr_never_raises_witness :
  _perform_ocr (ocr_env None) "/tmp/x/a.png" = Ok "" ∧
  _perform_ocr (ocr_env (Some padded_tesseract)) "/tmp/x/missing.png" = Ok "" ∧
  _perform_ocr (ocr_env (Some failing_tesseract)) "/tmp/x/a.png" = Ok "" ∧
  _perform_ocr (ocr_env (Some padded_tesseract)) "/tmp/x/a.png" = Ok "Total 42".
Proof.
  destruct perform_ocr_never_raises as (_ & H2 & H3 & _ & H5 & H6).
  split; [|split; [|split]].
  - apply H2. left. reflexivity.
  - eapply H3; reflexivity.
  - eapply H5; reflexivity.
  - eapply eq_trans; [eapply H6; reflexivity|]. vm_compute. reflexivity.
Defined.

(** ** C4: the attachment pass *)

Section Attachments.
Import Att.



End Attachments.

(** ** C6: rows and messages *)

Section Table.
Import Tab.

Lemma foldl_add_detail_keeps (l : list (string * string)) (r : row) (k : string) :
  is_Some (r !! k) → is_Some (foldl add_detail r l !! k).
Proof.
  revert r. induction l as [|kv l IH]; intros r H; simpl; [exact H|].
  apply IH. unfold add_detail.
  destruct (decide ("collection_details_" ++ kv.1 = k)) as [->|Hne].
  - rewrite lookup_insert_eq. eauto.
  - by rewrite lookup_insert_ne.
Qed.

Lemma build_row_has_date (m : Message) : is_Some (build_row m !! "date").
Proof.
  unfold build_row. apply foldl_add_detail_keeps.
  unfold base_row. rewrite !lookup_insert_ne by done.
  rewrite lookup_insert_eq. eauto.
Qed.

Lemma df_empty_cons (m : Message) (ms : list Message) :
  df_empty (List.map build_row (m :: ms)) = false.
Proof.
  unfold df_empty. apply orb_false_iff. split.
  - apply bool_decide_eq_false. simpl. discriminate.
  - apply bool_decide_eq_false. intros Hsz.
    apply size_empty_inv in Hsz.
    assert (Hin : "date" ∈ columns (build_row m :: List.map build_row ms)).
    { unfold columns. simpl. apply elem_of_union. left.
      apply elem_of_dom. apply build_row_has_date. }
    unfold columns in Hin. simpl in Hin. rewrite Hsz in Hin.
    by apply not_elem_of_empty in Hin.
Qed.

Lemma excel_length (ms : list Message) :
  length (excel (List.map build_row ms))
  = match ms with [] => 1 | _ :: _ => length ms end.
Proof.
  destruct ms as [|m ms].
  - reflexivity.
  - unfold excel. rewrite df_empty_cons. by rewrite length_map.
Qed.

(** C6. In every run that completes, the table has as many rows as there
    are messages, unless there is no message: then the table is the single
    placeholder row, whose six cells are empty texts. *)
Theorem excel_row_count (E : Env) (lines : list string) (out : Output) :
  parse_chat E lines = Ok out →
  length (excel_rows out)
  = match json_messages out with
    | [] => 1
    | _ :: _ => length (json_messages out)
    end ∧
  (json_messages out = [] → excel_rows out = [placeholder]) ∧
  size placeholder = 6 ∧ map_Forall (fun _ v => v = "") placeholder.
Proof.
  unfold parse_chat. intros H.
  destruct (Seg.run lines) as [seg|e]; [|discriminate]. simpl in H.
  destruct (Att.steps E _ _) as [att|e]; [|discriminate]. simpl in H.
  injection H as <-. simpl.
  split; [apply excel_length|]. split; [|split].
  - intros ->. reflexivity.
  - vm_compute. reflexivity.
  - intros k v Hk. unfold placeholder in Hk.
    repeat (apply lookup_insert_Some in Hk as [[_ Hk]|[_ Hk]]; [done|]).
    by rewrite lookup_empty in Hk.
Qed.

(** C6 on a run with two messages and on a run with none. *)
Lemma excel_row_count_witness :
  (∃ out, parse_chat bare_env
            ["9/8/25, 5:58 PM - John Doe: Hello"; "world";
             "9/8/25, 5:59 PM - Jane: Bye"] = Ok out ∧
          length (json_messages out) = 2 ∧ length (excel_rows out) = 2) ∧
  (∃ out, parse_chat bare_env ["no header here"] = Ok out ∧
          json_messages out = [] ∧ excel_rows out = [placeholder]).
Proof.
  split.
  - match goal with |- ∃ out, ?run = _ ∧ _ =>
      let r := eval vm_compute in run in
      match r with Ok ?o =>
        exists o; assert (H : run = Ok o) by (vm_compute; reflexivity)
      end
    end.
    split; [exact H|]. split; [reflexivity|].
    exact (proj1 (excel_row_count _ _ _ H)).
  - match goal with |- ∃ out, ?run = _ ∧ _ =>
      let r := eval vm_compute in run in
      match r with Ok ?o =>
        exists o; assert (H : run = Ok o) by (vm_compute; reflexivity)
      end
    end.
    split; [exact H|]. split; [reflexivity|].
    exact (proj1 (proj2 (excel_row_count _ _ _ H)) eq_refl).
Defined.

End Table.

(** ** Facts about the string functions *)

Section StrFacts.
Import Str.

Lemma append_cons (a : ascii) (s t : string) :
  String a s ++ t = String a (s ++ t).
Proof. reflexivity. Qed.

Lemma append_nil_l (t : string) : "" ++ t = t.
Proof. reflexivity. Qed.






Lemma rstrip_by_empty (p : ascii → bool) (s : string) :
  rstrip_by p s = "" ↔ forallb p s = true.
Proof.
  induction s as [|c s IH]; simpl; [done|].
  destruct (rstrip_by p s) eqn:Hr; simpl.
  - destruct (p c); simpl; [tauto|]. split; [discriminate|discriminate].
  - split; [discriminate|]. intros H. apply andb_true_iff in H as [_ H].
    apply IH in H. discriminate.
Qed.

Lemma lstrip_by_all (p : ascii → bool) (s : string) :
  forallb p s = true → lstrip_by p s = "".
Proof.
  induction s as [|c s IH]; simpl; [done|].
  intros H. apply andb_true_iff in H as [Hc Hs]. rewrite Hc. by apply IH.
Qed.

Lemma lstrip_rstrip_comm (p : ascii → bool) (s : string) :
  lstrip_by p (rstrip_by p s) = rstrip_by p (lstrip_by p s).
Proof.
  induction s as [|c s IH]; simpl; [reflexivity|].
  destruct (p c) eqn:Hc; simpl.
  - destruct (rstrip_by p s) eqn:Hr; simpl.
    + apply rstrip_by_empty in Hr. rewrite (lstrip_by_all _ _ Hr). reflexivity.
    + rewrite Hc. exact IH.
  - rewrite !andb_false_r. simpl. rewrite Hc. by rewrite andb_false_r.
Qed.

Lemma lstrip_by_idem (p : ascii → bool) (s : string) :
  lstrip_by p (lstrip_by p s) = lstrip_by p s.
Proof.
  induction s as [|c s IH]; simpl; [reflexivity|].
  destruct (p c) eqn:Hc; [exact IH|]. simpl. by rewrite Hc.
Qed.

Lemma rstrip_by_idem (p : ascii → bool) (s : string) :
  rstrip_by p (rstrip_by p s) = rstrip_by p s.
Proof.
  induction s as [|c s IH]; simpl; [reflexivity|].
  destruct (is_empty (rstrip_by p s) && p c) eqn:Hc; [reflexivity|].
  simpl. by rewrite IH, Hc.
Qed.

Lemma strip_idem (s : string) : strip (strip s) = strip s.
Proof.
  unfold strip.
  by rewrite <- lstrip_rstrip_comm, rstrip_by_idem, lstrip_by_idem.
Qed.


Lemma trimmed_strip (s : string) : trimmed (strip s).
Proof. apply strip_idem. Qed.


Lemma lstrip_hyphens (n : nat) (w : string) :
  startswith "-" w = false → lstrip_hyphen (hyphens n ++ w) = w.
Proof.
  intros Hw. induction n as [|n IH]; simpl.
  - rewrite append_nil_l. destruct w as [|a w]; [reflexivity|]. simpl in *.
    rewrite andb_true_r in Hw. unfold lstrip_hyphen. simpl. by rewrite Hw.
  - rewrite append_cons. exact IH.
Qed.

End StrFacts.

(** ** C8: the value of a detail line *)

Section DetailValue.
Import Det.

Lemma classify_needs_key (k c : string) :
  classify (key_norm (Str.strip k)) = Some c → Str.is_empty (Str.strip k) = false.
Proof.
  destruct (Str.strip k); [discriminate|reflexivity].
Qed.

(** C8 does not hold as stated: of two leading hyphens both are removed,
    where the claim keeps the second. *)
Lemma two_hyphens_both_stripped :
  value_raw " --Value" = "Value" ∧
  value_raw " --Value" ≠ "-Value" ∧
  extract_details "Status: --Value" = <["status" := "Value"]> ∅.
Proof.
  split; [vm_compute; reflexivity|]. split; [|vm_compute; reflexivity].
  vm_compute. discriminate.
Qed.

(** C8, amended.  For every line cut at its first colon whose key is
    recognised, the value part is trimmed, all of its leading hyphens are
    removed, however many there are, and what remains is trimmed again. *)
Theorem value_every_leading_hyphen_stripped (k v w c : string) (n : nat) :
  Str.has_char ":" k = false →
  classify (key_norm (Str.strip k)) = Some c →
  Str.strip v = hyphens n ++ w →
  Str.startswith "-" w = false →
  entry (k ++ String ":" v) = Some (c, Str.strip w).
Proof.
  intros Hk Hc Hv Hw. unfold entry.
  rewrite (split1_first_colon _ _ Hk), (classify_needs_key _ _ Hc), Hc.
  unfold value_raw. by rewrite Hv, (lstrip_hyphens _ _ Hw).
Qed.

(** The amended C8 on a value with one hyphen and on one with three. *)
Lemma value_every_leading_hyphen_stripped_witness :
  entry "Name: -Value" = Some ("name", "Value") ∧
  entry "Loan No: --- 77 " = Some ("loan_num", "77").
Proof.
  split.
  - exact (value_every_leading_hyphen_stripped "Name" " -Value" "Value" "name" 1
             eq_refl eq_refl eq_refl eq_refl).
  - exact (value_every_leading_hyphen_stripped "Loan No" " --- 77 " " 77"
             "loan_num" 3 eq_refl eq_refl eq_refl eq_refl).
Defined.

End DetailValue.

(** ** Facts about one step of the segmenter *)

Section SegFacts.
Import Seg.

Lemma regular_header_fields (g : Re.caps) (m : Message) :
  regular_header g = Ok m →
  sender m = Str.strip (Re.group g 3) ∧
  text m = Str.strip (Re.group g 4) ∧ attachments m = [].
Proof.
  unfold regular_header.
  destruct (_convert_date _); [|discriminate]. simpl.
  destruct (_convert_time _); [|discriminate]. simpl.
  intros [= <-]. done.
Qed.

Lemma system_header_fields (g : Re.caps) (m : Message) :
  system_header g = Ok m →
  sender m = "System" ∧
  text m = Str.strip (Re.group g 3) ∧ attachments m = [].
Proof.
  unfold system_header.
  destruct (_convert_date _); [|discriminate]. simpl.
  destruct (_convert_time _); [|discriminate]. simpl.
  intros [= <-]. done.
Qed.

(** A step that returns either opened a message, whose text is trimmed and
    whose attachment list is empty, or handled a continuation line. *)
Lemma step_inv (st st' : state) (raw : string) :
  step st raw = Ok st' →
  (∃ m, st' = open_msg st m ∧ trimmed (text m) ∧ attachments m = []) ∨
  st' = continue_msg st (Str.rstrip_nl raw).
Proof.
  unfold step.
  destruct (Re.match_ Pat.regular_re _) as [[g r]|].
  - destruct (regular_header g) as [m|e] eqn:Hh; [|discriminate].
    simpl. intros [= <-]. left. exists m.
    apply regular_header_fields in Hh as (_ & Ht & Ha).
    split; [done|]. split; [|done]. rewrite Ht. apply trimmed_strip.
  - destruct (Re.match_ Pat.system_re _) as [[g r]|].
    + destruct (system_header g) as [m|e] eqn:Hh; [|discriminate].
      simpl. intros [= <-]. left. exists m.
      apply system_header_fields in Hh as (_ & Ht & Ha).
      split; [done|]. split; [|done]. rewrite Ht. apply trimmed_strip.
    + intros [= <-]. by right.
Qed.

End SegFacts.

(** ** C7: the text of a message *)

Section MessageText.
Import Seg.











End MessageText.

(** ** C9: sealed messages *)

Section Sealed.
Import Seg.

Lemma wf_init : wf init.
Proof.
  split; simpl.
  - intros a Ha. by apply elem_of_nil in Ha.
  - discriminate.
Qed.

Lemma seal_bound (st : state) (a : nat) :
  wf st → a ∈ seal st → a < length (store st).
Proof.
  intros [Hm Hc] Ha. unfold seal in Ha.
  destruct (current_msg st) as [c|] eqn:Hcur; [|by apply Hm].
  apply elem_of_app in Ha as [Ha|Ha]; [by apply Hm|].
  apply list_elem_of_singleton in Ha. subst. by apply Hc.
Qed.

Lemma wf_open (st : state) (m : Message) : wf st → wf (open_msg st m).
Proof.
  intros Hwf. split; simpl.
  - intros a Ha. rewrite length_app. simpl.
    pose proof (seal_bound _ _ Hwf Ha). lia.
  - intros c [= <-]. rewrite length_app. simpl. split; [lia|].
    intros Ha. pose proof (seal_bound _ _ Hwf Ha). lia.
Qed.

Lemma wf_continue (st : state) (line : string) :
  wf st → wf (continue_msg st line).
Proof.
  intros [Hm Hc]. unfold continue_msg.
  destruct (current_msg st) as [c|] eqn:Hcur;
    [|split; [exact Hm|intros c' Hc'; congruence]].
  split; simpl.
  - intros a Ha. rewrite length_alter. by apply Hm.
  - intros c' [= <-]. rewrite length_alter. apply Hc.
    first [exact Hcur|reflexivity].
Qed.

Lemma step_wf (st st' : state) (raw : string) :
  wf st → step st raw = Ok st' → wf st'.
Proof.
  intros Hwf Hs. apply step_inv in Hs as [(m & -> & _)| ->].
  - by apply wf_open.
  - by apply wf_continue.
Qed.

(** One step leaves every sealed message as it is, and keeps it sealed. *)
Lemma step_frame (st st' : state) (raw : string) (a : nat) :
  wf st → step st raw = Ok st' → a ∈ messages st →
  a ∈ messages st' ∧ store st' !! a = store st !! a.
Proof.
  intros Hwf Hs Ha. pose proof Hwf as [Hm Hc].
  apply step_inv in Hs as [(m & -> & _)| ->].
  - simpl. split.
    + unfold seal. destruct (current_msg st); [|done].
      apply elem_of_app. by left.
    + apply lookup_app_l. by apply Hm.
  - unfold continue_msg. destruct (current_msg st) as [c|] eqn:Hcur; [|done].
    simpl. split; [done|]. apply list_lookup_alter_ne.
    intros ->. by destruct (Hc a eq_refl).
Qed.

Lemma steps_frame (ls : list string) (st st' : state) (a : nat) :
  wf st → steps st ls = Ok st' → a ∈ messages st →
  wf st' ∧ a ∈ messages st' ∧ store st' !! a = store st !! a.
Proof.
  revert st. induction ls as [|l ls IH]; intros st Hwf Hs Ha; simpl in Hs.
  - by injection Hs as <-.
  - destruct (step st l) as [st1|e] eqn:H1; [|discriminate]. simpl in Hs.
    destruct (step_frame _ _ _ _ Hwf H1 Ha) as [Ha1 He1].
    destruct (IH st1 (step_wf _ _ _ Hwf H1) Hs Ha1) as (Hwf' & Ha' & He').
    by rewrite He', He1.
Qed.

Lemma steps_wf (ls : list string) (st st' : state) :
  wf st → steps st ls = Ok st' → wf st'.
Proof.
  revert st. induction ls as [|l ls IH]; intros st Hwf Hs; simpl in Hs.
  - by injection Hs as <-.
  - destruct (step st l) as [st1|e] eqn:H1; [|discriminate]. simpl in Hs.
    eapply IH; [|exact Hs]. by eapply step_wf.
Qed.

Lemma same_fields_refl (m : Message) : same_fields m m.
Proof. by repeat split. Qed.

Lemma same_fields_trans (m1 m2 m3 : Message) :
  same_fields m1 m2 → same_fields m2 m3 → same_fields m1 m3.
Proof.
  intros (H1 & H2 & H3 & H4) (K1 & K2 & K3 & K4).
  repeat split; congruence.
Qed.

(** The attachment pass writes the attachment list of a message and
    nothing else. *)
Lemma att_step_frame (E : Env) (s s' : Att.state) (b a : nat) (m : Message) :
  Att.step E s b = Ok s' → Att.store s !! a = Some m →
  ∃ m', Att.store s' !! a = Some m' ∧ same_fields m m'.
Proof.
  unfold Att.step. intros Hs Ha.
  destruct (Att.store s !! b) as [msg|] eqn:Hb.
  - destruct (Att.resolve_all E _) as [[atts calls]|e]; [|discriminate].
    simpl in Hs. injection Hs as <-. simpl.
    destruct atts as [|x atts].
    + exists m. split; [done|apply same_fields_refl].
    + destruct (decide (b = a)) as [->|Hne].
      * rewrite list_lookup_alter_eq, Ha. simpl. eexists. split; [done|].
        by repeat split.
      * rewrite list_lookup_alter_ne by done.
        exists m. split; [done|apply same_fields_refl].
  - injection Hs as <-. exists m. split; [done|apply same_fields_refl].
Qed.

Lemma att_steps_frame (E : Env) (l : list nat) (s s' : Att.state) (a : nat)
    (m : Message) :
  Att.steps E s l = Ok s' → Att.store s !! a = Some m →
  ∃ m', Att.store s' !! a = Some m' ∧ same_fields m m'.
Proof.
  revert s m. induction l as [|b l IH]; intros s m Hs Ha; simpl in Hs.
  - injection Hs as <-. exists m. split; [done|apply same_fields_refl].
  - destruct (Att.step E s b) as [s1|e] eqn:H1; [|discriminate]. simpl in Hs.
    destruct (att_step_frame _ _ _ _ _ _ H1 Ha) as (m1 & Ha1 & Hf1).
    destruct (IH s1 m1 Hs Ha1) as (m' & Ha' & Hf').
    exists m'. split; [done|]. by eapply same_fields_trans.
Qed.

(** C9 does not hold as stated: the attachment pass runs after the
    segmenter has sealed every message and assigns the attachment list of
    a sealed message. *)
Lemma attachments_assigned_after_sealing :
  ∃ st att,
    run ["9/8/25, 5:58 PM - Ann: see IMG-001.jpg";
         "9/8/25, 5:59 PM - Bob: ok"] = Ok st ∧
    messages st = [0; 1] ∧
    attachments <$> store st !! 0 = Some [] ∧
    Att.steps bare_env (Att.mk_state (store st) []) (messages st) = Ok att ∧
    attachments <$> Att.store att !! 0
      = Some [mk_attachment "IMG-001.jpg" ""].
Proof.
  eexists _, _. split; [vm_compute; reflexivity|].
  split; [reflexivity|]. split; [reflexivity|].
  split; [vm_compute; reflexivity|]. reflexivity.
Qed.

(** C9, amended.  A message that was sealed, by a later header line or by
    the end of the input, is left untouched by the rest of the
    segmentation, and the attachment pass that follows keeps its date,
    time, sender and text; only its attachment list is assigned by that
    pass. *)
Theorem sealed_fields_kept (E : Env) (pre post : list string)
    (mid fin : state) (att : Att.state) (a : nat) :
  steps init pre = Ok mid →
  steps mid post = Ok fin →
  Att.steps E (Att.mk_state (store (finish fin)) []) (messages (finish fin))
    = Ok att →
  a ∈ messages mid ∨ (post = [] ∧ a ∈ messages (finish mid)) →
  ∃ m m',
    store mid !! a = Some m ∧ store fin !! a = Some m ∧
    Att.store att !! a = Some m' ∧ same_fields m m'.
Proof.
  intros Hpre Hpost Hatt Ha.
  pose proof (steps_wf _ _ _ wf_init Hpre) as Hwf.
  assert (Hlt : a < length (store mid)).
  { destruct Ha as [Ha|[_ Ha]]; [by apply (proj1 Hwf)|by apply seal_bound]. }
  destruct (lookup_lt_is_Some_2 _ _ Hlt) as [m Hm].
  assert (Hfin : store fin !! a = Some m).
  { destruct Ha as [Ha|[-> _]].
    - destruct (steps_frame _ _ _ _ Hwf Hpost Ha) as (_ & _ & He).
      by rewrite He.
    - simpl in Hpost. by injection Hpost as <-. }
  destruct (att_steps_frame _ _ _ _ a m Hatt Hfin) as (m' & Hm' & Hf).
  by exists m, m'.
Qed.

(** The amended C9 on the run of the counterexample, for the message
    sealed by the second header line. *)
Lemma sealed_fields_kept_witness :
  ∃ m m',
    m = mk_message "2025-09-08" "17:58" "Ann" "see IMG-001.jpg" [] ∧
    attachments m' = [mk_attachment "IMG-001.jpg" ""] ∧
    same_fields m m'.
Proof.
  pose (pre := ["9/8/25, 5:58 PM - Ann: see IMG-001.jpg";
                "9/8/25, 5:59 PM - Bob: ok"]).
  pose (post := ["9/8/25, 6:01 PM - Ann: bye"]).
  let r1 := eval vm_compute in (steps init pre) in
  match r1 with
  | Ok ?mid =>
      let r2 := eval vm_compute in (steps mid post) in
      match r2 with
      | Ok ?fin =>
          let r3 := eval vm_compute in
            (Att.steps bare_env (Att.mk_state (store (finish fin)) [])
                       (messages (finish fin))) in
          match r3 with
          | Ok ?att =>
              destruct (sealed_fields_kept bare_env pre post mid fin att 0)
                as (m & m' & H1 & _ & H3 & H4);
                [vm_compute; reflexivity
                |vm_compute; reflexivity
                |vm_compute; reflexivity
                |left; apply list_elem_of_singleton; reflexivity
                |]
          end
      end
  end.
  exists m, m'. simpl in H1, H3.
  injection H1 as <-. injection H3 as <-.
  split; [reflexivity|]. split; [reflexivity|exact H4].
Defined.

End Sealed.

(** ** Facts about the matcher *)

Section ReFacts.
Import Re.












End ReFacts.

(** ** C10: authored lines *)

Section Authored.
Import Re Seg.



















End Authored.
